(** * NewFeaturePopup: a shallow embedding of
    src/src/components/NewFeaturePopup/index.tsx

    The component reads two localStorage entries on mount, decides whether
    to schedule the popup with [setTimeout], and offers three click
    handlers (close, dismiss, navigate).  The browser pieces the component
    touches are modelled explicitly:
    - [localStorage] as a [gmap string string] plus two availability flags
      (reads and writes throw a DOMException when storage is unusable);
    - the timer queue of [setTimeout] as a list of (due time, callback)
      ordered by due time;
    - the two [useState] cells [isVisible] and [isAnimating], whose setters
      are ignored once the component is unmounted (React drops state
      updates on an unmounted component);
    - [history.push] as a list of pushed routes;
    - JavaScript numbers as exact rationals with a separate NaN. *)

From stdpp Require Import base gmap strings list sorting.
From Stdlib Require Import QArith ZArith Ascii String.

Open Scope string_scope.
Open Scope Z_scope.

(** ** JavaScript numbers *)

(** Values of the program are integers (timestamps, [parseInt] results)
    and their quotients by 86400000, so they are represented exactly by
    [Q]; [JNaN] is the NaN that [parseInt] produces. *)
Inductive jsnum := JNum (q : Q) | JNaN.

Definition jsub (x y : jsnum) : jsnum :=
  match x, y with
  | JNum a, JNum b => JNum (a - b)%Q
  | _, _ => JNaN
  end.

(** Division by a non-zero constant (the only division in the code). *)
Definition jdiv (x : jsnum) (d : Q) : jsnum :=
  match x with
  | JNum a => JNum (a / d)%Q
  | JNaN => JNaN
  end.

(** [x < y]: false as soon as one side is NaN. *)
Definition jlt (x y : jsnum) : bool :=
  match x, y with
  | JNum a, JNum b => negb (Qle_bool b a)
  | _, _ => false
  end.

(** ** [parseInt] (ECMAScript, radix argument absent) *)

Definition is_ws (c : ascii) : bool :=
  let n := nat_of_ascii c in
  (n =? 32)%nat || (n =? 9)%nat || (n =? 10)%nat || (n =? 11)%nat
  || (n =? 12)%nat || (n =? 13)%nat.

Fixpoint trim_start (s : string) : string :=
  match s with
  | EmptyString => EmptyString
  | String c r => if is_ws c then trim_start r else s
  end.

(** Value of a character as a digit of radix up to 36 (0-9, a-z, A-Z). *)
Definition digit_val (c : ascii) : option Z :=
  let n := Z.of_nat (nat_of_ascii c) in
  if (48 <=? n) && (n <=? 57) then Some (n - 48)
  else if (97 <=? n) && (n <=? 122) then Some (n - 87)
  else if (65 <=? n) && (n <=? 90) then Some (n - 55)
  else None.

(** The longest prefix of radix-[r] digits, accumulated into [acc];
    [None] when the prefix is empty. *)
Fixpoint take_digits (r : Z) (s : string) (acc : Z) (seen : bool) : option Z :=
  match s with
  | EmptyString => if seen then Some acc else None
  | String c rest =>
      match digit_val c with
      | Some d => if d <? r then take_digits r rest (acc * r + d) true
                  else if seen then Some acc else None
      | None => if seen then Some acc else None
      end
  end.

Definition parse_sign (s : string) : Z * string :=
  match s with
  | String c r =>
      if Ascii.eqb c "-"%char then (-1, r)
      else if Ascii.eqb c "+"%char then (1, r)
      else (1, s)
  | EmptyString => (1, s)
  end.

Definition parse_radix (s : string) : Z * string :=
  match s with
  | String c0 (String c1 r) =>
      if Ascii.eqb c0 "0"%char && (Ascii.eqb c1 "x"%char || Ascii.eqb c1 "X"%char)
      then (16, r) else (10, s)
  | _ => (10, s)
  end.

(** Results beyond 2^53 would be rounded by JavaScript; the timestamps
    handled here are far below that bound. *)
Definition parseInt (s : string) : jsnum :=
  let '(sign, s2) := parse_sign (trim_start s) in
  let '(radix, s3) := parse_radix s2 in
  match take_digits radix s3 0 false with
  | Some z => JNum (inject_Z (sign * z))
  | None => JNaN
  end.

(** ** [Number.prototype.toString] on an integer *)

Definition digit_char (d : Z) : ascii := ascii_of_nat (Z.to_nat (48 + d)).

Fixpoint dec_go (fuel : nat) (n : Z) (acc : string) : string :=
  match fuel with
  | O => acc
  | S f =>
      let acc' := String (digit_char (n mod 10)) acc in
      if n / 10 =? 0 then acc' else dec_go f (n / 10) acc'
  end.

Definition nat_dec (n : Z) : string := dec_go (S (Z.to_nat (Z.log2 n))) n "".

(** Decimal rendering of an integer.  [getTime] values are bounded by
    8.64e15, well below 1e21 where JavaScript switches to exponent
    notation. *)
Definition Z_to_dec (n : Z) : string :=
  if n <? 0 then String "-"%char (nat_dec (- n)) else nat_dec n.

(** JavaScript truthiness of [localStorage.getItem]'s result
    ([string | null]): null and the empty string are falsy. *)
Definition truthy (v : option string) : bool :=
  match v with
  | Some s => negb (String.eqb s "")
  | None => false
  end.

(** [String(v)] for the [string | null] passed to [parseInt]. *)
Definition js_String (v : option string) : string :=
  match v with
  | Some s => s
  | None => "null"
  end.

(** ** The browser world the component runs in *)

Record Storage := mkStorage {
  items : gmap string string;
  readable : bool;   (** [getItem] succeeds *)
  writable : bool    (** [setItem] succeeds (no SecurityError / quota) *)
}.

(** The callbacks the component hands to [setTimeout]. *)
Inductive callback :=
  | ShowPopup        (** [() => { setIsVisible(true); setTimeout(() => setIsAnimating(true), 100) }] *)
  | StartAnimating   (** [() => setIsAnimating(true)] *)
  | HidePopup.       (** [() => setIsVisible(false)] *)

Record World := mkWorld {
  store : Storage;
  clock : Z;                          (** [new Date().getTime()] *)
  pending : list (Z * callback);      (** timer queue: (due time, callback) *)
  isVisible : bool;
  isAnimating : bool;
  mounted : bool;
  routes : list string                (** [history.push] calls, latest first *)
}.

Inductive result (A : Type) := Ok (a : A) | Throw (e : string).
Arguments Ok {A} a.
Arguments Throw {A} e.

(** Stateful code that may throw: the component's effect and handlers. *)
Definition M (A : Type) : Type := World -> result (A * World).

Global Instance M_ret : MRet M := fun A a w => Ok (a, w).
Global Instance M_bind : MBind M := fun A B f m w =>
  match m w with
  | Ok (a, w') => f a w'
  | Throw e => Throw e
  end.

Definition set_store (s : Storage) (w : World) : World :=
  mkWorld s (clock w) (pending w) (isVisible w) (isAnimating w) (mounted w) (routes w).
Definition set_pending (p : list (Z * callback)) (w : World) : World :=
  mkWorld (store w) (clock w) p (isVisible w) (isAnimating w) (mounted w) (routes w).
Definition set_clock (t : Z) (w : World) : World :=
  mkWorld (store w) t (pending w) (isVisible w) (isAnimating w) (mounted w) (routes w).

(** [localStorage.getItem(k)] *)
Definition getItem (k : string) : M (option string) := fun w =>
  if readable (store w) then Ok (items (store w) !! k, w)
  else Throw "SecurityError".

(** [localStorage.setItem(k, v)] *)
Definition setItem (k v : string) : M unit := fun w =>
  if writable (store w) then
    Ok (tt, set_store (mkStorage (<[k := v]> (items (store w)))
                                 (readable (store w)) (writable (store w))) w)
  else Throw "SecurityError".

(** [new Date().getTime()] *)
Definition getTime : M Z := fun w => Ok (clock w, w).

(** Insertion into the timer queue, after the timers due no later. *)
Fixpoint enqueue (t : Z) (cb : callback) (q : list (Z * callback)) : list (Z * callback) :=
  match q with
  | [] => [(t, cb)]
  | (t', cb') :: r => if t <? t' then (t, cb) :: q else (t', cb') :: enqueue t cb r
  end.

(** [setTimeout(cb, delay)] *)
Definition setTimeout (cb : callback) (delay : Z) : M unit := fun w =>
  Ok (tt, set_pending (enqueue (clock w + delay) cb (pending w)) w).

(** [setIsVisible] and [setIsAnimating]: no effect once unmounted. *)
Definition setIsVisible (b : bool) : M unit := fun w =>
  Ok (tt, if mounted w then
            mkWorld (store w) (clock w) (pending w) b (isAnimating w) true (routes w)
          else w).
Definition setIsAnimating (b : bool) : M unit := fun w =>
  Ok (tt, if mounted w then
            mkWorld (store w) (clock w) (pending w) (isVisible w) b true (routes w)
          else w).

(** [history.push(url)] *)
Definition history_push (url : string) : M unit := fun w =>
  Ok (tt, mkWorld (store w) (clock w) (pending w) (isVisible w) (isAnimating w)
                  (mounted w) (url :: routes w)).

(** ** The component *)

Definition lastShownKey (featureId : string) : string :=
  "popup_" ++ featureId ++ "_lastShown".
Definition dismissedKey (featureId : string) : string :=
  "popup_" ++ featureId ++ "_dismissed".

Definition msPerDay : Q := inject_Z (1000 * 60 * 60 * 24).

(** The body of the [useEffect] (index.tsx lines 26-61); the
    [console.log] calls have no observable effect here.  The effect
    returns no cleanup function. *)
Definition mount_effect (featureId : string) (showDays : Q) : M unit :=
  lastShown ← getItem (lastShownKey featureId);
  dismissed ← getItem (dismissedKey featureId);
  if truthy dismissed then mret tt else
  now ← getTime;
  if negb (truthy lastShown) then
    setTimeout ShowPopup 2000 ;;
    setItem (lastShownKey featureId) (Z_to_dec now)
  else
    let daysSinceLastShown :=
      jdiv (jsub (JNum (inject_Z now)) (parseInt (js_String lastShown))) msPerDay in
    if jlt daysSinceLastShown (JNum showDays) then setTimeout ShowPopup 2000
    else mret tt.

(** The timer callbacks. *)
Definition run_callback (cb : callback) : M unit :=
  match cb with
  | ShowPopup => setIsVisible true ;; setTimeout StartAnimating 100
  | StartAnimating => setIsAnimating true
  | HidePopup => setIsVisible false
  end.

Definition handleClose : M unit :=
  setIsAnimating false ;;
  setTimeout HidePopup 400.

Definition handleDismiss (featureId : string) : M unit :=
  setItem (dismissedKey featureId) "true" ;;
  setIsAnimating false ;;
  setTimeout HidePopup 400.

Definition handleNavigate (linkUrl : string) : M unit :=
  history_push linkUrl ;;
  setIsAnimating false ;;
  setTimeout HidePopup 400.

(** Render: [null] unless [isVisible]; otherwise the overlay, whose
    visual state is given by [isAnimating].  An unmounted component
    renders nothing. *)
Definition render (w : World) : option bool :=
  if mounted w && isVisible w then Some (isAnimating w) else None.

(** React unmounting: no cleanup was registered, so the timer queue is
    left as it is. *)
Definition unmount (w : World) : World :=
  mkWorld (store w) (clock w) (pending w) (isVisible w) (isAnimating w) false (routes w).

(** The state of a freshly mounted component on a page loaded at [now]. *)
Definition fresh (st : Storage) (now : Z) : World :=
  mkWorld st now [] false false true [].

(** The event loop: fire the earliest pending timer. *)
Definition fire_next (w : World) : result World :=
  match pending w with
  | [] => Ok w
  | (t, cb) :: rest =>
      match run_callback cb (set_pending rest (set_clock (Z.max (clock w) t) w)) with
      | Ok (_, w') => Ok w'
      | Throw e => Throw e
      end
  end.

Fixpoint run_timers (n : nat) (w : World) : result World :=
  match n with
  | O => Ok w
  | S k => match fire_next w with
           | Ok w' => run_timers k w'
           | Throw e => Throw e
           end
  end.

(** A page load: mount the component at [now], run its effect, then let
    the event loop fire [n] timers. *)
Definition load (featureId : string) (showDays : Q) (st : Storage) (now : Z) (n : nat)
  : result World :=
  match mount_effect featureId showDays (fresh st now) with
  | Ok (_, w) => run_timers n w
  | Throw e => Throw e
  end.

(** Whether the popup is on screen after the load and [n] timers. *)
Definition renders_after (featureId : string) (showDays : Q) (st : Storage) (now : Z) (n : nat)
  : bool :=
  match load featureId showDays st now n with
  | Ok w => bool_decide (is_Some (render w))
  | Throw _ => false
  end.

(** ** Storages used in the concrete scenarios below *)

(** Working storage with no entries. *)
Definition st_rw : Storage := mkStorage ∅ true true.



(** Working storage holding only [v] under [k]. *)
Definition st_with (k v : string) : Storage := mkStorage {[k := v]} true true.

Definition day : Z := 86400000.

(** ** Release notes: src/src/components/CadenceReleases/index.tsx

    The JSON files written by scripts/fetch-releases.sh are lists of
    GitHub release objects (assets removed).  The fields the component
    reads are kept; [prerelease] and [draft] are [Some b] for a JSON
    boolean and [None] when the field is missing or holds another value
    (either way [=== false] fails). *)

Record Author := mkAuthor { login : string; author_html_url : string }.

Record Release := mkRelease {
  rel_id : Z;
  tag_name : string;
  rel_name : string;
  html_url : string;
  author : Author;
  published_at : string;
  prerelease : option bool;
  draft : option bool;
  body : string
}.

(** The named groups of the tag regex. *)
Record Version := mkVersion { major : string; minor : string; patch : string }.

(** [_.extend({}, release, {published_at_string, published_at_date, version})] *)
Record ReleaseEntry := mkEntry {
  release : Release;
  published_at_string : string;
  published_at_date : string;
  version : Version
}.

(** [\d]: an ASCII decimal digit. *)
Definition is_digit (c : ascii) : bool :=
  let n := Z.of_nat (nat_of_ascii c) in (48 <=? n) && (n <=? 57).

(** Greedy [\d*]: the longest digit prefix and the rest. *)
Fixpoint span_digits (s : string) : string * string :=
  match s with
  | EmptyString => (EmptyString, EmptyString)
  | String c r =>
      if is_digit c then let '(d, rest) := span_digits r in (String c d, rest)
      else (EmptyString, s)
  end.

(** [\d+] *)
Definition digits1 (s : string) : option (string * string) :=
  let '(d, rest) := span_digits s in
  match d with
  | EmptyString => None
  | _ => Some (d, rest)
  end.

(** [\.] *)
Definition expect_dot (s : string) : option string :=
  match s with
  | String c r => if Ascii.eqb c "."%char then Some r else None
  | EmptyString => None
  end.

(** [v?] *)
Definition strip_v (s : string) : string :=
  match s with
  | String c r => if Ascii.eqb c "v"%char then r else s
  | EmptyString => s
  end.

(** [tag.match(/^v?(?<major>\d+)\.(?<minor>\d+)\.(?<patch>\d+)/)]: [None]
    is [null].  The regex is anchored at the start only.  Backtracking
    cannot change the outcome: a digit run followed by a digit is never
    followed by ["."], and dropping the optional "v" leaves a string
    starting with "v", which no [\d+] accepts. *)
Definition match_version (tag : string) : option Version :=
  match digits1 (strip_v tag) with
  | None => None
  | Some (ma, r1) =>
      match expect_dot r1 with
      | None => None
      | Some r2 =>
          match digits1 r2 with
          | None => None
          | Some (mi, r3) =>
              match expect_dot r3 with
              | None => None
              | Some r4 =>
                  match digits1 r4 with
                  | None => None
                  | Some (pa, _) => Some (mkVersion ma mi pa)
                  end
              end
          end
      end
  end.

(** String comparison of lodash's [compareAscending] ([<] on strings). *)
Definition str_ltb (a b : string) : bool := String.ltb a b.

(** [_.orderBy(xs, [key], ["desc"])]: lodash sorts stably (ties keep
    their input order) and negates the comparison for "desc".  An
    insertion sort computes the same list. *)
Fixpoint insert_desc {A} (key : A -> string) (x : A) (l : list A) : list A :=
  match l with
  | [] => [x]
  | y :: r => if str_ltb (key x) (key y) then y :: insert_desc key x r else x :: l
  end.

Fixpoint orderBy_desc {A} (key : A -> string) (l : list A) : list A :=
  match l with
  | [] => []
  | x :: r => insert_desc key x (orderBy_desc key r)
  end.

(** [Array.prototype.map] with a callback that may throw: the first
    exception ends the map. *)
Fixpoint map_result {A B} (f : A -> result B) (l : list A) : result (list B) :=
  match l with
  | [] => Ok []
  | x :: r =>
      match f x with
      | Throw e => Throw e
      | Ok y => match map_result f r with
                | Throw e => Throw e
                | Ok ys => Ok (y :: ys)
                end
      end
  end.

Section ReleaseData.
(** [new Date(s).toLocaleDateString()] depends on the browser locale. *)
Variable toLocaleDateString : string -> string.
(** [new Date(s).toISOString().split("T", 1)[0]]; [None] when the date is
    invalid and [toISOString] throws a RangeError. *)
Variable toISODate : string -> option string.

(** The callback of [getReleaseData]'s [map]: the fields of the object
    literal are evaluated in order, then [versionMatch.groups] throws a
    TypeError when the tag did not match. *)
Definition release_entry (r : Release) : result ReleaseEntry :=
  let versionMatch := match_version (tag_name r) in
  let published_at_string := toLocaleDateString (published_at r) in
  match toISODate (published_at r) with
  | None => Throw "RangeError"
  | Some published_at_date =>
      match versionMatch with
      | None => Throw "TypeError"
      | Some v => Ok (mkEntry r published_at_string published_at_date v)
      end
  end.

(** [getReleaseData(source)], given the parsed JSON of [source]. *)
Definition getReleaseData (releaseData : list Release) : result (list ReleaseEntry) :=
  map_result release_entry (orderBy_desc published_at releaseData).
End ReleaseData.

(** [release.prerelease === false && release.draft === false] *)
Definition is_stable_release (r : Release) : bool :=
  match prerelease r, draft r with
  | Some false, Some false => true
  | _, _ => false
  end.

(** [_.find(xs, p)]: the first element satisfying [p]; [None] is [undefined]. *)
Fixpoint js_find {A} (p : A -> bool) (l : list A) : option A :=
  match l with
  | [] => None
  | x :: r => if p x then Some x else js_find p r
  end.

Definition getLatestRelease (releases : list ReleaseEntry) : option ReleaseEntry :=
  js_find (fun e => is_stable_release (release e)) releases.

(** [_.groupBy]: an object whose keys keep the order in which they first
    appear (the keys "v<major>.<minor>" are never array indices, so
    JavaScript enumerates them in insertion order), each holding its
    elements in input order. *)
Fixpoint group_add {A} (k : string) (x : A) (g : list (string * list A))
  : list (string * list A) :=
  match g with
  | [] => [(k, [x])]
  | (k', xs) :: r => if String.eqb k k' then (k', (xs ++ [x])%list) :: r
                     else (k', xs) :: group_add k x r
  end.

Definition groupBy {A} (f : A -> string) (l : list A) : list (string * list A) :=
  fold_left (fun g x => group_add (f x) x g) l [].

Definition major_key (e : ReleaseEntry) : string :=
  "v" ++ major (version e) ++ "." ++ minor (version e).

(** [getMajorReleases]: [version.major] is the regex's string group, so
    [orderBy] compares majors as strings. *)
Definition getMajorReleases (releases : list ReleaseEntry) : list (string * list ReleaseEntry) :=
  groupBy major_key (orderBy_desc (fun e => major (version e)) releases).

(** Order and shape vocabulary for the release lists. *)

(** [a] comes no later than [b] in a list sorted descending by [key]. *)
Definition desc_by {A} (key : A -> string) (a b : A) : Prop := String.le (key b) (key a).

(** A string that cannot continue a [\d] run: empty or starting with a
    non-digit. *)
Definition starts_nondigit (s : string) : Prop :=
  match s with
  | String c _ => is_digit c = false
  | EmptyString => True
  end.

(** The first element of each group, in group order: the release the
    table of contents links first under each "v<major>.<minor>" heading. *)
Definition group_heads {A} (g : list (string * list A)) : list A :=
  flat_map (fun p => match snd p with [] => [] | x :: _ => [x] end) g.

(** Sample release objects as the GitHub API returns them. *)
Definition sample_author : Author := mkAuthor "cadence-bot" "https://github.com/cadence-bot".

Definition sample_release (tag date : string) (pre : bool) : Release :=
  mkRelease 1 tag tag ("https://github.com/uber/cadence/releases/tag/" ++ tag)
            sample_author date (Some pre) (Some false) "".

Definition sample_releases : list Release :=
  [sample_release "v1.2.3" "2024-03-01T10:00:00Z" false;
   sample_release "v1.3.0" "2024-06-01T10:00:00Z" true;
   sample_release "v1.2.4" "2024-04-01T10:00:00Z" false].

(** A date formatter for the samples: the first ten characters. *)
Definition sample_iso (s : string) : option string := Some (substring 0 10 s).

(** The entries [getReleaseData] builds from the samples. *)
Definition sample_entries : list ReleaseEntry :=
  match getReleaseData (fun s => s) sample_iso sample_releases with
  | Ok es => es
  | Throw _ => []
  end.

(** ** Decimal rendering is read back by [parseInt] *)

Fixpoint all_dec (s : string) : bool :=
  match s with
  | EmptyString => true
  | String c r =>
      let n := Z.of_nat (nat_of_ascii c) in (48 <=? n) && (n <=? 57) && all_dec r
  end.

Lemma decimal_digit_cases (d : Z) :
  0 <= d < 10 ->
  d = 0 \/ d = 1 \/ d = 2 \/ d = 3 \/ d = 4 \/ d = 5 \/ d = 6 \/ d = 7 \/ d = 8 \/ d = 9.
Proof. lia. Qed.

Ltac digit_cases d :=
  let H := fresh in
  match goal with Hd : 0 <= d < 10 |- _ =>
    pose proof (decimal_digit_cases d Hd) as H;
    repeat (destruct H as [-> | H]; [reflexivity | ]); subst; reflexivity
  end.

Lemma digit_val_char (d : Z) : 0 <= d < 10 -> digit_val (digit_char d) = Some d.
Proof. intros Hd. digit_cases d. Qed.

Lemma digit_char_dec (d : Z) :
  0 <= d < 10 ->
  (48 <=? Z.of_nat (nat_of_ascii (digit_char d))) &&
  (Z.of_nat (nat_of_ascii (digit_char d)) <=? 57) = true.
Proof. intros Hd. digit_cases d. Qed.

Lemma take_digits_char (d : Z) (s : string) (a : Z) (seen : bool) :
  0 <= d < 10 ->
  take_digits 10 (String (digit_char d) s) a seen = take_digits 10 s (a * 10 + d) true.
Proof.
  intros Hd. simpl. rewrite (digit_val_char d Hd).
  replace (d <? 10) with true by (symmetry; apply Z.ltb_lt; lia). reflexivity.
Qed.

Lemma all_dec_go (f : nat) (n : Z) (acc : string) :
  0 <= n -> all_dec acc = true -> all_dec (dec_go f n acc) = true.
Proof.
  revert n acc. induction f as [|f IH]; intros n acc Hn Hacc; simpl; [exact Hacc|].
  assert (Hm : 0 <= n mod 10 < 10) by (apply Z.mod_pos_bound; lia).
  assert (Hs : all_dec (String (digit_char (n mod 10)) acc) = true)
    by (simpl; rewrite (digit_char_dec _ Hm); exact Hacc).
  destruct (n / 10 =? 0); [exact Hs|].
  apply IH; [apply Z.div_pos; lia | exact Hs].
Qed.

Lemma take_digits_go (f : nat) :
  forall (n : Z) (acc : string) (a : Z) (seen : bool),
  0 <= n < 10 ^ Z.of_nat (S f) ->
  exists k : nat,
    take_digits 10 (dec_go (S f) n acc) a seen
    = take_digits 10 acc (a * 10 ^ Z.of_nat k + n) true.
Proof.
  induction f as [|f IH]; intros n acc a seen Hn;
    assert (Hm : 0 <= n mod 10 < 10) by (apply Z.mod_pos_bound; lia);
    pose proof (Z.div_mod n 10 ltac:(lia)) as Hdm.
  - simpl in Hn.
    change (dec_go 1 n acc) with
      (let acc' := String (digit_char (n mod 10)) acc in
       if n / 10 =? 0 then acc' else dec_go 0 (n / 10) acc').
    cbv zeta. replace (n / 10) with 0 by (symmetry; apply Z.div_small; lia).
    rewrite Z.eqb_refl.
    exists 1%nat. rewrite (take_digits_char _ _ _ _ Hm).
    f_equal. rewrite Z.mod_small by lia. simpl. lia.
  - change (dec_go (S (S f)) n acc) with
      (let acc' := String (digit_char (n mod 10)) acc in
       if n / 10 =? 0 then acc' else dec_go (S f) (n / 10) acc').
    cbv zeta. destruct (Z.eqb_spec (n / 10) 0) as [Hq | Hq].
    + exists 1%nat. rewrite (take_digits_char _ _ _ _ Hm). f_equal. simpl. lia.
    + assert (Hq' : 0 <= n / 10 < 10 ^ Z.of_nat (S f)).
      { split; [apply Z.div_pos; lia|].
        apply Z.div_lt_upper_bound; [lia|].
        rewrite Nat2Z.inj_succ, Z.pow_succ_r in Hn by lia. lia. }
      destruct (IH (n / 10) (String (digit_char (n mod 10)) acc) a seen Hq') as [k Hk].
      exists (S k). rewrite Hk, (take_digits_char _ _ _ _ Hm). f_equal.
      rewrite Nat2Z.inj_succ, Z.pow_succ_r by lia. lia.
Qed.

Lemma nat_dec_fuel (n : Z) :
  0 <= n -> n < 10 ^ Z.of_nat (S (Z.to_nat (Z.log2 n))).
Proof.
  intros Hn.
  rewrite Nat2Z.inj_succ, Z2Nat.id by apply Z.log2_nonneg.
  destruct (Z.eq_dec n 0) as [-> | Hn0]; [simpl; lia|].
  destruct (Z.log2_spec n ltac:(lia)) as [_ Hlt].
  eapply Z.lt_le_trans; [exact Hlt|].
  rewrite <- Z.add_1_r. apply Z.pow_le_mono_l.
  split; [lia | lia].
Qed.

Lemma take_digits_nat_dec (n : Z) :
  0 <= n -> take_digits 10 (nat_dec n) 0 false = Some n.
Proof.
  intros Hn. unfold nat_dec.
  destruct (take_digits_go (Z.to_nat (Z.log2 n)) n "" 0 false
              (conj Hn (nat_dec_fuel n Hn))) as [k Hk].
  rewrite Hk. reflexivity.
Qed.

Lemma all_dec_nat_dec (n : Z) : 0 <= n -> all_dec (nat_dec n) = true.
Proof. intros Hn. apply all_dec_go; [exact Hn | reflexivity]. Qed.

Lemma all_dec_head (c : ascii) (s : string) :
  all_dec (String c s) = true ->
  48 <= Z.of_nat (nat_of_ascii c) <= 57.
Proof.
  simpl. intros H. apply andb_prop in H as [H _]. apply andb_prop in H as [H1 H2].
  apply Z.leb_le in H1. apply Z.leb_le in H2. lia.
Qed.

Lemma ascii_eqb_far (c c' : ascii) :
  Z.of_nat (nat_of_ascii c) <> Z.of_nat (nat_of_ascii c') -> Ascii.eqb c c' = false.
Proof.
  intros H. destruct (Ascii.eqb_spec c c') as [-> | _]; [congruence | reflexivity].
Qed.

Lemma is_ws_digit (c : ascii) :
  48 <= Z.of_nat (nat_of_ascii c) <= 57 -> is_ws c = false.
Proof.
  intros H. unfold is_ws. cbv zeta.
  repeat rewrite orb_false_iff. repeat split; apply Nat.eqb_neq; lia.
Qed.

Lemma parse_prefix_all_dec (s : string) :
  all_dec s = true ->
  trim_start s = s /\ parse_sign s = (1, s) /\ parse_radix s = (10, s).
Proof.
  intros Hs. destruct s as [|c r]; [repeat split|].
  pose proof (all_dec_head c r Hs) as Hc.
  simpl. rewrite (is_ws_digit c Hc).
  rewrite (ascii_eqb_far c "-"%char)
    by (change (nat_of_ascii "-"%char) with 45%nat; lia).
  rewrite (ascii_eqb_far c "+"%char)
    by (change (nat_of_ascii "+"%char) with 43%nat; lia).
  repeat split. destruct r as [|c1 r]; [reflexivity|].
  simpl in Hs. apply andb_prop in Hs as [_ Hr].
  pose proof (all_dec_head c1 r Hr) as Hc1.
  rewrite (ascii_eqb_far c1 "x"%char)
    by (change (nat_of_ascii "x"%char) with 120%nat; lia).
  rewrite (ascii_eqb_far c1 "X"%char)
    by (change (nat_of_ascii "X"%char) with 88%nat; lia).
  rewrite andb_false_r. reflexivity.
Qed.

Lemma parseInt_Z_to_dec (n : Z) : parseInt (Z_to_dec n) = JNum (inject_Z n).
Proof.
  unfold Z_to_dec. destruct (Z.ltb_spec n 0) as [Hn | Hn].
  - pose proof (all_dec_nat_dec (- n) ltac:(lia)) as Ha.
    destruct (parse_prefix_all_dec _ Ha) as [_ [_ Hr]].
    unfold parseInt. simpl trim_start. cbv iota beta zeta.
    simpl parse_sign. cbv iota beta. rewrite Hr. cbv iota beta.
    rewrite (take_digits_nat_dec (- n)) by lia.
    do 2 f_equal. lia.
  - pose proof (all_dec_nat_dec n Hn) as Ha.
    destruct (parse_prefix_all_dec _ Ha) as [Ht [Hsg Hr]].
    unfold parseInt. rewrite Ht, Hsg, Hr, (take_digits_nat_dec n Hn).
    do 2 f_equal. lia.
Qed.

Lemma dec_go_nonempty (f : nat) (n : Z) (acc : string) : acc <> "" -> dec_go f n acc <> "".
Proof.
  revert n acc. induction f as [|f IH]; intros n acc Hacc; simpl; [exact Hacc|].
  destruct (n / 10 =? 0); [discriminate | apply IH; discriminate].
Qed.

Lemma Z_to_dec_nonempty (n : Z) : Z_to_dec n <> "".
Proof.
  unfold Z_to_dec. destruct (n <? 0); [discriminate|].
  unfold nat_dec. simpl. destruct (n / 10 =? 0); [discriminate|].
  apply dec_go_nonempty. discriminate.
Qed.

(** ** Running the mount effect *)

Lemma app_cancel_l (p a b : string) : p ++ a = p ++ b -> a = b.
Proof.
  induction p as [|c p IH]; simpl; [auto|]. intros H. injection H. exact IH.
Qed.

Lemma keys_distinct (featureId : string) : lastShownKey featureId <> dismissedKey featureId.
Proof.
  unfold lastShownKey, dismissedKey. intros H.
  apply app_cancel_l, app_cancel_l in H. discriminate.
Qed.



(** Equations of the primitives under [≫=]. *)
Section BindEquations.
Context {A : Type} (w : World).

Lemma bind_getItem (f : option string -> M A) (k : string) :
  readable (store w) = true -> (getItem k ≫= f) w = f (items (store w) !! k) w.
Proof. intros Hr. unfold mbind, M_bind, getItem. rewrite Hr. reflexivity. Qed.

Lemma bind_getItem_fail (f : option string -> M A) (k : string) :
  readable (store w) = false -> (getItem k ≫= f) w = Throw "SecurityError".
Proof. intros Hr. unfold mbind, M_bind, getItem. rewrite Hr. reflexivity. Qed.

Lemma bind_getTime (f : Z -> M A) : (getTime ≫= f) w = f (clock w) w.
Proof. reflexivity. Qed.

Lemma bind_setTimeout (f : unit -> M A) (cb : callback) (d : Z) :
  (setTimeout cb d ≫= f) w
  = f tt (set_pending (enqueue (clock w + d) cb (pending w)) w).
Proof. reflexivity. Qed.

Lemma bind_setItem (f : unit -> M A) (k v : string) :
  writable (store w) = true ->
  (setItem k v ≫= f) w
  = f tt (set_store (mkStorage (<[k := v]> (items (store w)))
                               (readable (store w)) (writable (store w))) w).
Proof. intros Hw. unfold mbind, M_bind, setItem. rewrite Hw. reflexivity. Qed.

End BindEquations.

Lemma run_timers_idle (n : nat) (w : World) : pending w = [] -> run_timers n w = Ok w.
Proof.
  intros Hp. induction n as [|n IH]; simpl; [reflexivity|].
  unfold fire_next. rewrite Hp. exact IH.
Qed.

(** A truthy [dismissed] entry ends the effect before anything happens. *)
Lemma mount_truthy_dismissed (featureId : string) (showDays : Q) (w : World) (v : string) :
  readable (store w) = true ->
  items (store w) !! dismissedKey featureId = Some v ->
  v <> "" ->
  mount_effect featureId showDays w = Ok (tt, w).
Proof.
  intros Hr Hd Hv. unfold mount_effect.
  rewrite !bind_getItem by exact Hr. rewrite Hd.
  unfold truthy. destruct (String.eqb_spec v "") as [-> | _]; [congruence | reflexivity].
Qed.

(** Elapsed-time test on integer inputs. *)
Lemma elapsed_lt_Z (now t sd : Z) :
  jlt (jdiv (jsub (JNum (inject_Z now)) (JNum (inject_Z t))) msPerDay) (JNum (inject_Z sd))
  = (now - t <? sd * 86400000).
Proof.
  unfold jlt, jdiv, jsub, msPerDay, Qle_bool, Qminus, Qplus, Qopp, Qdiv, Qmult, Qinv, inject_Z.
  change (1000 * 60 * 60 * 24) with 86400000. cbn -[Z.mul Z.add Z.opp Z.leb Z.ltb].
  match goal with |- negb (?a <=? ?b) = _ => destruct (Z.leb_spec a b) as [H | H] end;
    destruct (Z.ltb_spec (now - t) (sd * 86400000)) as [H' | H']; simpl; lia.
Qed.

(** C1 *)
(** Claim C1: when the persisted dismissed flag of [featureId] is "true",
    the mount effect changes nothing and schedules nothing, so for any
    stored [lastShown], any page-load time and any number of timers fired
    afterwards, the popup is not rendered. *)
Theorem dismissed_never_shows (featureId : string) (showDays : Q) (st : Storage) (now : Z) :
  readable st = true ->
  items st !! dismissedKey featureId = Some "true" ->
  mount_effect featureId showDays (fresh st now) = Ok (tt, fresh st now) /\
  forall n : nat,
    load featureId showDays st now n = Ok (fresh st now) /\
    render (fresh st now) = None /\
    renders_after featureId showDays st now n = false.
Proof.
  intros Hr Hd.
  assert (Hm : mount_effect featureId showDays (fresh st now) = Ok (tt, fresh st now))
    by (apply (mount_truthy_dismissed _ _ _ "true"); [exact Hr | exact Hd | discriminate]).
  split; [exact Hm|]. intros n.
  assert (Hl : load featureId showDays st now n = Ok (fresh st now))
    by (unfold load; rewrite Hm; apply run_timers_idle; reflexivity).
  split; [exact Hl|]. split; [reflexivity|].
  unfold renders_after. rewrite Hl. reflexivity.
Qed.


(** C10 *)
(** Claim C10: the dismissed check is JavaScript truthiness: any
    non-empty string stored under the dismissed key (not only "true")
    suppresses the popup exactly as the "true" sentinel does. *)
Theorem dismissed_truthiness (featureId : string) (showDays : Q) (st : Storage) (now : Z)
    (v : string) :
  readable st = true ->
  items st !! dismissedKey featureId = Some v ->
  v <> "" ->
  mount_effect featureId showDays (fresh st now) = Ok (tt, fresh st now) /\
  forall n : nat, renders_after featureId showDays st now n = false.
Proof.
  intros Hr Hd Hv.
  assert (Hm : mount_effect featureId showDays (fresh st now) = Ok (tt, fresh st now))
    by (apply (mount_truthy_dismissed _ _ _ v); assumption).
  split; [exact Hm|]. intros n. unfold renders_after, load. rewrite Hm.
  rewrite run_timers_idle by reflexivity. reflexivity.
Qed.

(** The branch of the effect taken when [lastShown] is truthy. *)
Lemma mount_lastShown_present (featureId : string) (showDays : Q) (st : Storage) (now : Z)
    (s : string) :
  readable st = true ->
  items st !! dismissedKey featureId = None ->
  items st !! lastShownKey featureId = Some s ->
  s <> "" ->
  mount_effect featureId showDays (fresh st now)
  = if jlt (jdiv (jsub (JNum (inject_Z now)) (parseInt s)) msPerDay) (JNum showDays)
    then Ok (tt, set_pending [(now + 2000, ShowPopup)] (fresh st now))
    else Ok (tt, fresh st now).
Proof.
  intros Hr Hd Hl Hs.
  assert (Ht : truthy (Some s) = true)
    by (unfold truthy; destruct (String.eqb_spec s "") as [E | _]; [congruence | reflexivity]).
  unfold mount_effect. rewrite !bind_getItem by exact Hr.
  change (store (fresh st now)) with st. rewrite Hd, Hl, Ht. cbn [truthy negb js_String].
  rewrite bind_getTime. cbn [clock fresh].
  destruct (jlt _ _); reflexivity.
Qed.

(** The branch of the effect taken when nothing is stored. *)
Lemma mount_first_time (featureId : string) (showDays : Q) (st : Storage) (now : Z) :
  readable st = true ->
  writable st = true ->
  items st !! dismissedKey featureId = None ->
  items st !! lastShownKey featureId = None ->
  mount_effect featureId showDays (fresh st now)
  = Ok (tt, mkWorld (mkStorage (<[lastShownKey featureId := Z_to_dec now]> (items st))
                               (readable st) (writable st))
                    now [(now + 2000, ShowPopup)] false false true []).
Proof.
  intros Hr Hw Hd Hl.
  unfold mount_effect. rewrite !bind_getItem by exact Hr.
  change (store (fresh st now)) with st. rewrite Hd, Hl. cbn [truthy negb].
  rewrite bind_getTime, bind_setTimeout. unfold setItem.
  cbn [store set_pending fresh clock]. rewrite Hw. reflexivity.
Qed.






(** C5 *)
(** Claim C5 as stated is refuted: on a first load at time 0 the
    timestamp "0" is written by the effect itself, before the popup is
    shown, and when the popup becomes visible (at 2000 ms) the stored
    value is not that time. *)
Lemma first_load_counterexample :
  match load "x" 7 st_rw 0 0, load "x" 7 st_rw 0 1 with
  | Ok w0, Ok w1 =>
      items (store w0) !! lastShownKey "x" = Some "0" /\ render w0 = None /\
      isVisible w1 = true /\ clock w1 = 2000 /\
      items (store w1) !! lastShownKey "x" <> Some (Z_to_dec (clock w1))
  | _, _ => False
  end.
Proof.
  vm_compute. split; [reflexivity|]. split; [reflexivity|].
  split; [reflexivity|]. split; [reflexivity|]. discriminate.
Qed.

(** Claim C5 (amended): on a first-ever load (no dismissed entry, no
    lastShown entry), the mount effect at time [now] schedules the show
    2000 ms later and immediately stores lastShown = [now], the mount time,
    before the popup is shown; once the show and animation timers have
    fired the popup is rendered, storage holds that timestamp and still
    no dismissed entry. *)
Theorem first_load_schedules_and_stamps (featureId : string) (showDays : Q) (st : Storage)
    (now : Z) :
  readable st = true -> writable st = true ->
  items st !! dismissedKey featureId = None ->
  items st !! lastShownKey featureId = None ->
  exists w0 w2,
    load featureId showDays st now 0 = Ok w0 /\
    items (store w0) = <[lastShownKey featureId := Z_to_dec now]> (items st) /\
    parseInt (Z_to_dec now) = JNum (inject_Z now) /\
    pending w0 = [(now + 2000, ShowPopup)] /\ render w0 = None /\
    load featureId showDays st now 2 = Ok w2 /\
    clock w2 = now + 2100 /\ render w2 = Some true /\
    items (store w2) !! lastShownKey featureId = Some (Z_to_dec now) /\
    items (store w2) !! dismissedKey featureId = None.
Proof.
  intros Hr Hw Hd Hl.
  pose proof (mount_first_time featureId showDays st now Hr Hw Hd Hl) as Hm.
  unfold load. rewrite Hm.
  eexists; eexists. split; [reflexivity|]. cbn [store items].
  split; [reflexivity|]. split; [apply parseInt_Z_to_dec|].
  split; [reflexivity|]. split; [reflexivity|].
  split; [reflexivity|]. cbn.
  split; [lia|]. split; [reflexivity|].
  split; [apply lookup_insert_eq|].
  rewrite lookup_insert_ne by apply keys_distinct. exact Hd.
Qed.



(** ** Handlers and unmounting *)

Lemma fire_next_unmounted (w : World) :
  mounted w = false -> exists w', fire_next w = Ok w' /\ mounted w' = false.
Proof.
  intros Hm. unfold fire_next.
  destruct (pending w) as [|[t cb] rest]; [exists w; split; [reflexivity | exact Hm]|].
  destruct cb; cbv [run_callback mbind M_bind setIsVisible setIsAnimating setTimeout
                    set_pending set_clock]; cbn [mounted]; rewrite Hm;
    eexists; (split; reflexivity).
Qed.

(** C6 *)
(** Claim C6: "Maybe later" writes "true" under the dismissed key, starts
    the hide animation and schedules the hide 400 ms later (the popup is
    gone once that timer fires); a second click leaves storage exactly as
    the first one did. *)
Theorem dismiss_idempotent (featureId : string) (w : World) :
  writable (store w) = true ->
  mounted w = true ->
  exists w1,
    handleDismiss featureId w = Ok (tt, w1) /\
    items (store w1) = <[dismissedKey featureId := "true"]> (items (store w)) /\
    isAnimating w1 = false /\
    pending w1 = enqueue (clock w + 400) HidePopup (pending w) /\
    (pending w = [] -> exists w3, run_timers 1 w1 = Ok w3 /\ render w3 = None) /\
    exists w2, handleDismiss featureId w1 = Ok (tt, w2) /\ store w2 = store w1.
Proof.
  intros Hw Hm.
  unfold handleDismiss. rewrite bind_setItem by exact Hw.
  cbv [mbind M_bind setIsAnimating setTimeout set_store set_pending].
  cbn [store items readable writable clock pending isVisible isAnimating mounted routes].
  rewrite Hm.
  eexists. split; [reflexivity|]. cbn.
  split; [reflexivity|]. split; [reflexivity|]. split; [reflexivity|]. split.
  - intros Hp. rewrite Hp. eexists. split; [reflexivity|]. reflexivity.
  - unfold setItem. cbn. rewrite Hw. eexists. split; [reflexivity|]. cbn.
    rewrite insert_insert_eq. reflexivity.
Qed.

(** C7 *)
(** Claim C7: the close handler and the navigate handler leave storage
    untouched (no dismissed entry, no lastShown change) and only schedule
    the session-local hide; navigation additionally pushes [linkUrl]. *)
Theorem close_and_navigate_keep_storage (linkUrl : string) (w : World) :
  (exists w1, handleClose w = Ok (tt, w1) /\ store w1 = store w /\
              pending w1 = enqueue (clock w + 400) HidePopup (pending w)) /\
  (exists w2, handleNavigate linkUrl w = Ok (tt, w2) /\ store w2 = store w /\
              routes w2 = linkUrl :: routes w /\
              pending w2 = enqueue (clock w + 400) HidePopup (pending w)).
Proof.
  cbv [handleClose handleNavigate mbind M_bind setIsAnimating setTimeout history_push
       set_pending].
  split; eexists; (split; [reflexivity|]); destruct (mounted w); cbn; auto.
Qed.

(** C9 *)
(** Claim C9 as stated is refuted: the effect registers no cleanup, so
    after a first-time mount and an immediate unmount the show timer is
    still queued. *)
Lemma unmount_counterexample :
  match mount_effect "x" 7 (fresh st_rw 0) with
  | Ok (_, w) => pending (unmount w) = [(2000, ShowPopup)]
  | Throw _ => False
  end.
Proof. vm_compute. reflexivity. Qed.

(** Claim C9 (amended): unmounting leaves every pending timer in place
    (no cleanup is registered), and when they fire afterwards their state
    updates land on the unmounted component, which renders nothing. *)
Theorem unmount_keeps_timers (w : World) :
  pending (unmount w) = pending w /\
  forall n : nat,
    match run_timers n (unmount w) with
    | Ok w' => mounted w' = false /\ render w' = None
    | Throw _ => False
    end.
Proof.
  split; [reflexivity|].
  intros n. assert (Hm : mounted (unmount w) = false) by reflexivity.
  revert Hm. generalize (unmount w) as u. clear w.
  induction n as [|n IH]; intros u Hm; simpl.
  - split; [exact Hm|]. unfold render. rewrite Hm. reflexivity.
  - destruct (fire_next_unmounted u Hm) as (u' & Hf & Hm'). rewrite Hf. exact (IH u' Hm').
Qed.

(** ** Witnesses: each theorem with hypotheses, applied at a concrete input *)

Lemma dismissed_never_shows_witness :
  readable (st_with (dismissedKey "x") "true") = true /\
  items (st_with (dismissedKey "x") "true") !! dismissedKey "x" = Some "true" /\
  renders_after "x" 7 (st_with (dismissedKey "x") "true") 0 2 = false.
Proof.
  split; [reflexivity|]. split; [reflexivity|].
  apply (proj2 (dismissed_never_shows "x" 7 (st_with (dismissedKey "x") "true") 0
                  eq_refl eq_refl) 2%nat).
Defined.




Lemma first_load_schedules_and_stamps_witness :
  readable st_rw = true /\ writable st_rw = true /\
  exists w0 w2,
    load "x" 7 st_rw 0 0 = Ok w0 /\
    items (store w0) = <[lastShownKey "x" := Z_to_dec 0]> (items st_rw) /\
    parseInt (Z_to_dec 0) = JNum (inject_Z 0) /\
    pending w0 = [(0 + 2000, ShowPopup)] /\ render w0 = None /\
    load "x" 7 st_rw 0 2 = Ok w2 /\
    clock w2 = 0 + 2100 /\ render w2 = Some true /\
    items (store w2) !! lastShownKey "x" = Some (Z_to_dec 0) /\
    items (store w2) !! dismissedKey "x" = None.
Proof.
  split; [reflexivity|]. split; [reflexivity|].
  apply (first_load_schedules_and_stamps "x" 7 st_rw 0); vm_compute; reflexivity.
Defined.

Lemma dismiss_idempotent_witness :
  exists w1,
    handleDismiss "x" (fresh st_rw 0) = Ok (tt, w1) /\
    items (store w1) = <[dismissedKey "x" := "true"]> (items st_rw) /\
    isAnimating w1 = false /\
    pending w1 = enqueue (0 + 400) HidePopup [] /\
    (@nil (Z * callback) = [] -> exists w3, run_timers 1 w1 = Ok w3 /\ render w3 = None) /\
    exists w2, handleDismiss "x" w1 = Ok (tt, w2) /\ store w2 = store w1.
Proof.
  apply (dismiss_idempotent "x" (fresh st_rw 0)); reflexivity.
Defined.


Lemma dismissed_truthiness_witness :
  mount_effect "x" 7 (fresh (st_with (dismissedKey "x") "false") 0)
  = Ok (tt, fresh (st_with (dismissedKey "x") "false") 0) /\
  renders_after "x" 7 (st_with (dismissedKey "x") "0") 0 3 = false.
Proof.
  split.
  - exact (proj1 (dismissed_truthiness "x" 7 (st_with (dismissedKey "x") "false") 0 "false"
                    eq_refl eq_refl ltac:(discriminate))).
  - exact (proj2 (dismissed_truthiness "x" 7 (st_with (dismissedKey "x") "0") 0 "0"
                    eq_refl eq_refl ltac:(discriminate)) 3%nat).
Defined.

(** ** Further properties of NewFeaturePopup *)

(** Storage written by a first load: the stamped lastShown, nothing else. *)
Lemma first_load_store (featureId : string) (sd : Q) (st : Storage) (t0 : Z) :
  readable st = true -> writable st = true ->
  items st !! dismissedKey featureId = None ->
  items st !! lastShownKey featureId = None ->
  exists w0, mount_effect featureId sd (fresh st t0) = Ok (tt, w0) /\
    store w0 = mkStorage (<[lastShownKey featureId := Z_to_dec t0]> (items st)) true true.
Proof.
  intros Hr Hw Hd Hl. rewrite (mount_first_time _ _ _ _ Hr Hw Hd Hl).
  eexists. split; [reflexivity|]. cbn [store]. rewrite Hr, Hw. reflexivity.
Qed.

(** Across page loads: the first load stamps lastShown = t0; a later load
    at t1 on the storage it left schedules the popup again exactly when
    fewer than [showDays] whole days separate t1 from t0 (a t1 before t0
    included), and never writes storage. *)
Theorem reload_shows_within_interval (featureId : string) (sd : Z) (st : Storage) (t0 t1 : Z) :
  readable st = true -> writable st = true ->
  items st !! dismissedKey featureId = None ->
  items st !! lastShownKey featureId = None ->
  exists w0,
    mount_effect featureId (inject_Z sd) (fresh st t0) = Ok (tt, w0) /\
    mount_effect featureId (inject_Z sd) (fresh (store w0) t1)
    = if t1 - t0 <? sd * day
      then Ok (tt, set_pending [(t1 + 2000, ShowPopup)] (fresh (store w0) t1))
      else Ok (tt, fresh (store w0) t1).
Proof.
  intros Hr Hw Hd Hl.
  destruct (first_load_store featureId (inject_Z sd) st t0 Hr Hw Hd Hl) as (w0 & Hm & Hs).
  exists w0. split; [exact Hm|]. rewrite Hs.
  rewrite (mount_lastShown_present _ _ _ _ (Z_to_dec t0)).
  - rewrite parseInt_Z_to_dec, elapsed_lt_Z. reflexivity.
  - reflexivity.
  - cbn [items]. rewrite lookup_insert_ne by apply keys_distinct. exact Hd.
  - cbn [items]. apply lookup_insert_eq.
  - apply Z_to_dec_nonempty.
Qed.

(** Dismissal outlives the session: after "Maybe later", every later page
    load on the resulting storage, at any time and with any interval,
    never renders the popup. *)
Theorem dismiss_persists_across_loads (featureId : string) (w : World) :
  readable (store w) = true -> writable (store w) = true ->
  exists w1, handleDismiss featureId w = Ok (tt, w1) /\
    forall (sd : Q) (now : Z) (n : nat), renders_after featureId sd (store w1) now n = false.
Proof.
  intros Hr Hw. destruct w as [s c p v a m r]; cbn [store] in Hr, Hw.
  unfold handleDismiss. rewrite bind_setItem by exact Hw.
  destruct m; (eexists; split; [reflexivity|]); intros sd now n;
    unfold renders_after, load.
  all: rewrite (mount_truthy_dismissed _ _ _ "true"); [ | exact Hr | | discriminate];
    [rewrite run_timers_idle by reflexivity; reflexivity | apply lookup_insert_eq].
Qed.

(** What the mount effect may do to storage: every key other than the
    lastShown key is left as it was, the availability flags are kept,
    and when lastShown already held a non-empty value storage is not
    touched at all.  The effect itself shows nothing. *)
Theorem mount_storage_frame (featureId : string) (sd : Q) (st : Storage) (now : Z) (w' : World) :
  mount_effect featureId sd (fresh st now) = Ok (tt, w') ->
  (forall k, k <> lastShownKey featureId -> items (store w') !! k = items st !! k) /\
  readable (store w') = readable st /\ writable (store w') = writable st /\
  (truthy (items st !! lastShownKey featureId) = true -> store w' = st) /\
  render w' = None.
Proof.
  intros H. unfold mount_effect in H.
  destruct (readable st) eqn:Er;
    [| rewrite bind_getItem_fail in H by exact Er; discriminate].
  rewrite !bind_getItem in H by exact Er. change (store (fresh st now)) with st in H.
  destruct (truthy (items st !! dismissedKey featureId)).
  { injection H as <-. cbn. auto. }
  rewrite bind_getTime in H. cbn [clock fresh] in H.
  destruct (truthy (items st !! lastShownKey featureId)) eqn:El; cbn [negb] in H.
  - destruct (jlt _ _); injection H as <-; cbn; auto.
  - rewrite bind_setTimeout in H. unfold setItem in H.
    cbn [store set_pending fresh] in H. destruct (writable st) eqn:Ew; [|discriminate].
    injection H as <-. cbn. split; [|split; [exact Er | split; [reflexivity|]]].
    + intros k Hk. rewrite lookup_insert_ne by congruence. reflexivity.
    + split; [discriminate | reflexivity].
Qed.

(** The show is two-phased: on a first load the popup appears at
    now + 2000 in its hidden style, and 100 ms later switches to the
    animated style. *)
Theorem show_two_phases (featureId : string) (sd : Q) (st : Storage) (now : Z) :
  readable st = true -> writable st = true ->
  items st !! dismissedKey featureId = None ->
  items st !! lastShownKey featureId = None ->
  exists w1 w2,
    load featureId sd st now 1 = Ok w1 /\ clock w1 = now + 2000 /\ render w1 = Some false /\
    load featureId sd st now 2 = Ok w2 /\ clock w2 = now + 2100 /\ render w2 = Some true.
Proof.
  intros Hr Hw Hd Hl. unfold load. rewrite (mount_first_time _ _ _ _ Hr Hw Hd Hl).
  cbv [run_timers fire_next run_callback mbind M_bind setIsVisible setIsAnimating
       setTimeout set_pending set_clock enqueue].
  cbn [clock pending mounted isVisible isAnimating store].
  do 2 eexists. split; [reflexivity|]. cbn.
  split; [lia|]. split; [reflexivity|]. split; [reflexivity|].
  split; [cbn [clock]; lia | reflexivity].
Qed.

(** Each handler first switches the visible popup to its hidden style
    and removes it when the 400 ms timer fires; only "Maybe later"
    touches storage. *)
Theorem handlers_hide_after_400 (featureId linkUrl : string) (w : World) :
  mounted w = true -> isVisible w = true -> pending w = [] -> writable (store w) = true ->
  (forall h : M unit, h = handleClose \/ h = handleNavigate linkUrl \/ h = handleDismiss featureId ->
   exists w1 w2, h w = Ok (tt, w1) /\ render w1 = Some false /\
     run_timers 1 w1 = Ok w2 /\ clock w2 = clock w + 400 /\ render w2 = None /\
     store w2 = store w1) /\
  (exists w1, handleClose w = Ok (tt, w1) /\ store w1 = store w) /\
  (exists w1, handleNavigate linkUrl w = Ok (tt, w1) /\ store w1 = store w).
Proof.
  intros Hm Hv Hp Hw.
  destruct w as [s c p v a m r]; cbn in Hm, Hv, Hp, Hw; subst.
  split; [|split].
  - intros h [-> | [-> | ->]];
      cbv [handleClose handleNavigate handleDismiss mbind M_bind setItem history_push
           setIsAnimating setTimeout set_store set_pending enqueue];
      cbn [store writable clock pending mounted isVisible isAnimating routes];
      try rewrite Hw;
      do 2 eexists; (split; [reflexivity|]);
      cbv [run_timers fire_next run_callback mbind M_bind setIsVisible set_pending set_clock];
      cbn; (split; [reflexivity|]); (split; [reflexivity|]);
      (split; [simpl; lia|]); split; reflexivity.
  - eexists. split; reflexivity.
  - eexists. split; reflexivity.
Qed.


(** ** Ordering, finding and grouping releases *)

Global Instance desc_by_trans {A} (key : A -> string) : Transitive (desc_by key).
Proof. intros a b c Hab Hbc. unfold desc_by in *. etransitivity; [exact Hbc | exact Hab]. Qed.

Lemma str_ltb_true (a b : string) : str_ltb a b = true -> String.le a b.
Proof.
  unfold str_ltb, String.ltb, String.le, String.leb.
  destruct (String.compare a b); intros H; try discriminate; exact I.
Qed.

Lemma str_ltb_false (a b : string) : str_ltb a b = false -> String.le b a.
Proof.
  unfold str_ltb, String.ltb, String.le, String.leb.
  rewrite (String.compare_antisym b a).
  destruct (String.compare a b); intros H; try discriminate; exact I.
Qed.

Lemma insert_desc_perm {A} (key : A -> string) (x : A) (l : list A) :
  insert_desc key x l ≡ₚ x :: l.
Proof.
  induction l as [|y r IH]; simpl; [reflexivity|].
  destruct (str_ltb _ _); [|reflexivity]. rewrite IH. apply perm_swap.
Qed.

Lemma orderBy_desc_perm {A} (key : A -> string) (l : list A) : orderBy_desc key l ≡ₚ l.
Proof.
  induction l as [|x r IH]; simpl; [reflexivity|]. rewrite insert_desc_perm, IH. reflexivity.
Qed.

Lemma insert_desc_hd {A} (key : A -> string) (x y : A) (l : list A) :
  desc_by key y x -> HdRel (desc_by key) y l -> HdRel (desc_by key) y (insert_desc key x l).
Proof.
  intros Hyx Hl. destruct l as [|z r]; simpl; [constructor; exact Hyx|].
  inversion Hl; subst. destruct (str_ltb _ _); constructor; assumption.
Qed.

Lemma insert_desc_sorted {A} (key : A -> string) (x : A) (l : list A) :
  Sorted (desc_by key) l -> Sorted (desc_by key) (insert_desc key x l).
Proof.
  induction 1 as [|y r Hr IH Hhd]; simpl; [repeat constructor|].
  destruct (str_ltb (key x) (key y)) eqn:E.
  - constructor; [exact IH|]. apply insert_desc_hd; [|exact Hhd].
    unfold desc_by. apply str_ltb_true, E.
  - constructor; [constructor; assumption|]. constructor.
    unfold desc_by. apply str_ltb_false, E.
Qed.

Lemma orderBy_desc_sorted {A} (key : A -> string) (l : list A) :
  Sorted (desc_by key) (orderBy_desc key l).
Proof.
  induction l as [|x r IH]; simpl; [constructor|]. apply insert_desc_sorted, IH.
Qed.

Lemma map_result_ok {A B} (f : A -> result B) (l : list A) (ys : list B) :
  map_result f l = Ok ys -> Forall2 (fun x y => f x = Ok y) l ys.
Proof.
  revert ys; induction l as [|x r IH]; intros ys H; simpl in H.
  - injection H as <-. constructor.
  - destruct (f x) as [y|e] eqn:Ef; [|discriminate].
    destruct (map_result f r) as [ys'|e] eqn:Er; [|discriminate].
    injection H as <-. constructor; [exact Ef | apply IH; reflexivity].
Qed.

Lemma map_result_ok_iff {A B} (f : A -> result B) (l : list A) :
  (exists ys, map_result f l = Ok ys) <-> (forall x, In x l -> exists y, f x = Ok y).
Proof.
  induction l as [|x r IH]; simpl.
  - split; [intros _ z [] | intros _; exists []; reflexivity].
  - split.
    + intros [ys H]. destruct (f x) as [y|e] eqn:Ef; [|discriminate].
      destruct (map_result f r) as [ys'|e] eqn:Er; [|discriminate].
      intros z [<- | Hz]; [exists y; exact Ef|].
      exact (proj1 IH (ex_intro _ ys' eq_refl) z Hz).
    + intros H. destruct (H x (or_introl eq_refl)) as [y Hy]. rewrite Hy.
      destruct (proj2 IH (fun z Hz => H z (or_intror Hz))) as [ys Hys]. rewrite Hys.
      exists (y :: ys). reflexivity.
Qed.

Lemma release_entry_ok (tl : string -> string) (ti : string -> option string)
    (r : Release) (e : ReleaseEntry) :
  release_entry tl ti r = Ok e ->
  release e = r /\ match_version (tag_name r) = Some (version e) /\
  ti (published_at r) = Some (published_at_date e) /\
  published_at_string e = tl (published_at r).
Proof.
  unfold release_entry. cbv zeta.
  destruct (ti (published_at r)) eqn:Ed; [|discriminate].
  destruct (match_version (tag_name r)) eqn:Ev; [|discriminate].
  intros H. injection H as <-. cbn. auto.
Qed.

Lemma release_entry_ok_iff (tl : string -> string) (ti : string -> option string) (r : Release) :
  (exists e, release_entry tl ti r = Ok e) <->
  is_Some (ti (published_at r)) /\ is_Some (match_version (tag_name r)).
Proof.
  unfold release_entry. cbv zeta.
  destruct (ti (published_at r)); destruct (match_version (tag_name r));
    split; intros H; try (destruct H as [? H]; discriminate);
    try (destruct H as [[? ?] [? ?]]; discriminate).
  - split; eexists; reflexivity.
  - eexists; reflexivity.
Qed.

Lemma release_entries_ok (tl : string -> string) (ti : string -> option string)
    (l : list Release) (es : list ReleaseEntry) :
  Forall2 (fun x y => release_entry tl ti x = Ok y) l es ->
  map release es = l /\
  Forall (fun e => match_version (tag_name (release e)) = Some (version e) /\
                   ti (published_at (release e)) = Some (published_at_date e) /\
                   published_at_string e = tl (published_at (release e))) es.
Proof.
  induction 1 as [|x e l es Hx _ [IHm IHf]]; [split; [reflexivity | constructor]|].
  apply release_entry_ok in Hx as (Hr & Hv & Hd & Hs). subst x.
  split; [cbn; f_equal; exact IHm|]. constructor; [|exact IHf]. auto.
Qed.

Lemma getReleaseData_ok (tl : string -> string) (ti : string -> option string)
    (rs : list Release) (es : list ReleaseEntry) :
  getReleaseData tl ti rs = Ok es ->
  map release es = orderBy_desc published_at rs /\
  Forall (fun e => match_version (tag_name (release e)) = Some (version e) /\
                   ti (published_at (release e)) = Some (published_at_date e) /\
                   published_at_string e = tl (published_at (release e))) es.
Proof. unfold getReleaseData. intros H. apply map_result_ok in H. exact (release_entries_ok _ _ _ _ H). Qed.

Lemma getReleaseData_ok_iff_in (tl : string -> string) (ti : string -> option string)
    (rs : list Release) :
  (exists es, getReleaseData tl ti rs = Ok es) <->
  (forall r, In r rs -> is_Some (ti (published_at r)) /\ is_Some (match_version (tag_name r))).
Proof.
  unfold getReleaseData. rewrite map_result_ok_iff.
  pose proof (orderBy_desc_perm published_at rs) as Hp.
  split; intros H r Hr.
  - apply (proj1 (release_entry_ok_iff tl ti r)), H.
    eapply Permutation_in; [symmetry; exact Hp | exact Hr].
  - apply (proj2 (release_entry_ok_iff tl ti r)), H.
    eapply Permutation_in; [exact Hp | exact Hr].
Qed.

Lemma append_empty_l (s : string) : "" ++ s = s.
Proof. reflexivity. Qed.

Lemma append_String (c : ascii) (a s : string) : String c a ++ s = String c (a ++ s).
Proof. reflexivity. Qed.

Lemma span_digits_app (d s : string) :
  all_dec d = true -> starts_nondigit s -> span_digits (d ++ s) = (d, s).
Proof.
  induction d as [|c d IH]; intros Hd Hs.
  - destruct s as [|c r]; [reflexivity|]. cbn [starts_nondigit] in Hs.
    rewrite ?append_empty_l, ?append_String; cbn [span_digits]. rewrite Hs. reflexivity.
  - change (all_dec (String c d)) with (is_digit c && all_dec d) in Hd.
    apply andb_prop in Hd as [Hc Hd].
    rewrite ?append_empty_l, ?append_String; cbn [span_digits]. rewrite Hc, IH by assumption. reflexivity.
Qed.

Lemma digits1_app (d s : string) :
  d <> "" -> all_dec d = true -> starts_nondigit s -> digits1 (d ++ s) = Some (d, s).
Proof.
  intros Hne Hd Hs. unfold digits1. rewrite span_digits_app by assumption.
  destruct d; [congruence | reflexivity].
Qed.

Lemma match_version_app (pre a b c rest : string) :
  (pre = "" \/ pre = "v") ->
  a <> "" -> b <> "" -> c <> "" ->
  all_dec a = true -> all_dec b = true -> all_dec c = true ->
  starts_nondigit rest ->
  match_version (pre ++ a ++ "." ++ b ++ "." ++ c ++ rest) = Some (mkVersion a b c).
Proof.
  intros Hpre Ha Hb Hc Da Db Dc Hr.
  assert (Hs : strip_v (pre ++ a ++ "." ++ b ++ "." ++ c ++ rest)
               = a ++ "." ++ b ++ "." ++ c ++ rest).
  { destruct Hpre as [-> | ->]; [|reflexivity].
    destruct a as [|ch a']; [congruence|]. rewrite append_empty_l, append_String; cbn [strip_v].
    change (all_dec (String ch a')) with (is_digit ch && all_dec a') in Da.
    apply andb_prop in Da as [Dch _].
    destruct (Ascii.eqb ch "v") eqn:E; [|reflexivity].
    apply Ascii.eqb_eq in E. subst. discriminate Dch. }
  unfold match_version. rewrite Hs.
  rewrite (digits1_app a) by (assumption || reflexivity). rewrite append_String, append_empty_l; cbn [expect_dot Ascii.eqb Bool.eqb].
  rewrite (digits1_app b) by (assumption || reflexivity). rewrite append_String, append_empty_l; cbn [expect_dot Ascii.eqb Bool.eqb].
  rewrite (digits1_app c) by assumption. reflexivity.
Qed.

Lemma match_version_nondigit (tag : string) :
  starts_nondigit (strip_v tag) -> match_version tag = None.
Proof.
  intros H. unfold match_version, digits1.
  destruct (strip_v tag) as [|c r]; [reflexivity|]. cbn [starts_nondigit] in H.
  cbn [span_digits]. rewrite H. reflexivity.
Qed.

Lemma js_find_some {A} (p : A -> bool) (l : list A) (x : A) :
  js_find p l = Some x <->
  exists pre post, l = (pre ++ x :: post)%list /\ p x = true /\ Forall (fun y => p y = false) pre.
Proof.
  split.
  - induction l as [|y r IH]; cbn [js_find]; [discriminate|].
    destruct (p y) eqn:E.
    + intros H. injection H as <-. exists [], r. auto.
    + intros H. destruct (IH H) as (pre & post & -> & Hx & Hpre).
      exists (y :: pre), post. auto.
  - intros (pre & post & -> & Hx & Hpre).
    induction Hpre as [|y pre Hy _ IH]; cbn [js_find app]; [rewrite Hx | rewrite Hy]; auto.
Qed.

Lemma js_find_none {A} (p : A -> bool) (l : list A) :
  js_find p l = None <-> Forall (fun y => p y = false) l.
Proof.
  induction l as [|y r IH]; cbn [js_find]; [split; auto|].
  destruct (p y) eqn:E; split; intros H.
  - discriminate.
  - inversion H; congruence.
  - constructor; [exact E | apply IH, H].
  - apply IH. inversion H; assumption.
Qed.

Lemma StronglySorted_mid {A} (R : A -> A -> Prop) (l1 l2 : list A) (x : A) :
  StronglySorted R (l1 ++ x :: l2)%list -> Forall (R x) l2.
Proof.
  induction l1 as [|y l1 IH]; cbn [app]; intros H; inversion H; subst; auto.
Qed.

Lemma Forall_sublist_of {A} (P : A -> Prop) (l1 l2 : list A) :
  sublist l1 l2 -> Forall P l2 -> Forall P l1.
Proof.
  induction 1 as [|x l1 l2 _ IH|x l1 l2 _ IH]; intros H; [constructor| |];
    inversion H; subst; auto.
Qed.

Lemma StronglySorted_sublist {A} (R : A -> A -> Prop) (l1 l2 : list A) :
  sublist l1 l2 -> StronglySorted R l2 -> StronglySorted R l1.
Proof.
  induction 1 as [|x l1 l2 Hs IH|x l1 l2 Hs IH]; intros H; [constructor| |].
  - inversion H; subst. constructor; [apply IH; assumption|].
    eapply Forall_sublist_of; eassumption.
  - inversion H; subst. apply IH; assumption.
Qed.

Section Grouping.
Context {A : Type} (f : A -> string).

Definition group_ok (g : list (string * list A)) : Prop :=
  NoDup (map fst g) /\ Forall (fun p => snd p <> [] /\ Forall (fun x => f x = fst p) (snd p)) g.

Lemma group_add_keys (k : string) (x : A) (g : list (string * list A)) (k' : string) :
  In k' (map fst (group_add k x g)) <-> k' = k \/ In k' (map fst g).
Proof.
  induction g as [|[k'' xs] r IH]; cbn [group_add map fst In]; [naive_solver|].
  destruct (String.eqb k k'') eqn:E; cbn [map fst In].
  - apply String.eqb_eq in E. subst. naive_solver.
  - rewrite IH. naive_solver.
Qed.

Lemma group_add_ok (x : A) (g : list (string * list A)) :
  group_ok g -> group_ok (group_add (f x) x g).
Proof.
  unfold group_ok. induction g as [|[k xs] r IH]; cbn [group_add]; intros [Hn Hf].
  - split; [apply NoDup_singleton|].
    constructor; [|constructor]. cbn [fst snd].
    split; [discriminate | constructor; [reflexivity | constructor]].
  - inversion Hn as [|? ? Hk Hnr]; subst. inversion Hf as [|? ? [Hne Hxs] Hfr]; subst.
    cbn [fst snd] in *. destruct (String.eqb (f x) k) eqn:E.
    + apply String.eqb_eq in E. split; [exact Hn|]. constructor; [|exact Hfr].
      cbn [fst snd]. split.
      * destruct xs; discriminate.
      * apply Forall_app; split; [exact Hxs | constructor; [exact E | constructor]].
    + apply String.eqb_neq in E. destruct (IH (conj Hnr Hfr)) as [Hn' Hf'].
      split.
      * cbn [map fst]. constructor; [|exact Hn'].
        rewrite list_elem_of_In, group_add_keys. rewrite list_elem_of_In in Hk.
        intros [? | ?]; [congruence | contradiction].
      * constructor; [split; assumption | exact Hf'].
Qed.

Lemma group_add_perm (k : string) (x : A) (g : list (string * list A)) :
  List.concat (map snd (group_add k x g)) ≡ₚ x :: List.concat (map snd g).
Proof.
  induction g as [|[k' xs] r IH]; cbn [group_add map snd List.concat].
  - reflexivity.
  - destruct (String.eqb k k'); cbn [map snd List.concat].
    + rewrite <- app_assoc. cbn [app]. symmetry. apply Permutation_middle.
    + rewrite IH. symmetry. apply Permutation_middle.
Qed.

Lemma group_add_heads (k : string) (x : A) (g : list (string * list A)) :
  Forall (fun p => snd p <> []) g ->
  sublist (group_heads (group_add k x g)) (group_heads g ++ [x])%list.
Proof.
  induction 1 as [|[k' xs] r Hne _ IH]; cbn [group_add].
  - reflexivity.
  - cbn [snd] in Hne. destruct xs as [|y ys]; [congruence|].
    destruct (String.eqb k k'); cbn [group_heads flat_map snd app].
    + apply sublist_skip. apply sublist_inserts_r. reflexivity.
    + apply sublist_skip. exact IH.
Qed.

Lemma groupBy_fold (l : list A) (g : list (string * list A)) :
  group_ok g ->
  let g' := fold_left (fun g x => group_add (f x) x g) l g in
  group_ok g' /\ List.concat (map snd g') ≡ₚ (List.concat (map snd g) ++ l)%list /\
  sublist (group_heads g') (group_heads g ++ l)%list.
Proof.
  revert g. induction l as [|x l IH]; intros g Hg; cbn [fold_left].
  - rewrite !app_nil_r. split; [exact Hg | split; reflexivity].
  - pose proof (group_add_ok x g Hg) as Hg'.
    destruct (IH _ Hg') as (Hok & Hp & Hs). split; [exact Hok | split].
    + rewrite Hp, group_add_perm. apply Permutation_middle.
    + etransitivity; [exact Hs|]. rewrite (app_assoc _ [x] l).
      apply sublist_app; [|reflexivity].
      apply group_add_heads. destruct Hg as [_ Hf].
      eapply Forall_impl; [exact Hf | intros p [Hp' _]; exact Hp'].
Qed.
End Grouping.

(** [getReleaseData] either throws or returns every release exactly once
    (a permutation of the JSON list), newest first by the [published_at]
    string, each carrying the regex groups of its tag and the two
    formatted dates of its [published_at]. *)
Theorem getReleaseData_sorted_permutation (tl : string -> string) (ti : string -> option string)
    (rs : list Release) (es : list ReleaseEntry) :
  getReleaseData tl ti rs = Ok es ->
  map release es ≡ₚ rs /\ Sorted (desc_by published_at) (map release es) /\
  Forall (fun e => match_version (tag_name (release e)) = Some (version e) /\
                   ti (published_at (release e)) = Some (published_at_date e) /\
                   published_at_string e = tl (published_at (release e))) es.
Proof.
  intros H. destruct (getReleaseData_ok tl ti rs es H) as [Hm Hf].
  rewrite Hm. split; [apply orderBy_desc_perm | split; [apply orderBy_desc_sorted | exact Hf]].
Qed.

(** [getReleaseData] succeeds exactly when every release has a valid
    date and a tag the version regex accepts; one bad release anywhere
    makes the whole call throw. *)
Theorem getReleaseData_ok_iff (tl : string -> string) (ti : string -> option string)
    (rs : list Release) :
  (exists es, getReleaseData tl ti rs = Ok es) <->
  (forall r, In r rs -> is_Some (ti (published_at r)) /\ is_Some (match_version (tag_name r))).
Proof. apply getReleaseData_ok_iff_in. Qed.

(** The tag regex reads the three leading digit runs: an optional "v",
    then major, minor and patch separated by dots; whatever follows the
    patch digits (a "-rc1" suffix, say) is ignored. *)
Theorem version_tag_groups (pre a b c rest : string) :
  (pre = "" \/ pre = "v") ->
  a <> "" -> b <> "" -> c <> "" ->
  all_dec a = true -> all_dec b = true -> all_dec c = true ->
  starts_nondigit rest ->
  match_version (pre ++ a ++ "." ++ b ++ "." ++ c ++ rest) = Some (mkVersion a b c).
Proof. apply match_version_app. Qed.

(** A release whose tag, after an optional leading "v", does not start
    with a digit ("V1.2.3", "release-1.2", "") has no version match, and
    its presence makes [getReleaseData] throw. *)
Theorem nonnumeric_tag_throws (tl : string -> string) (ti : string -> option string)
    (rs : list Release) (r : Release) :
  In r rs -> starts_nondigit (strip_v (tag_name r)) ->
  match_version (tag_name r) = None /\ exists err, getReleaseData tl ti rs = Throw err.
Proof.
  intros Hin Ht. pose proof (match_version_nondigit _ Ht) as Hv. split; [exact Hv|].
  destruct (getReleaseData tl ti rs) as [es|err] eqn:E; [|exists err; reflexivity].
  destruct (proj1 (getReleaseData_ok_iff_in tl ti rs) (ex_intro _ es E) r Hin) as [_ Hs].
  rewrite Hv in Hs. destruct Hs as [? Hs]; discriminate.
Qed.

(** [getLatestRelease] returns the first entry with [prerelease] and
    [draft] both [false] and skips everything before it, and returns
    [undefined] exactly when no entry is stable. *)
Theorem getLatestRelease_first_stable (es : list ReleaseEntry) :
  (forall e, getLatestRelease es = Some e <->
     exists pre post, es = (pre ++ e :: post)%list /\ is_stable_release (release e) = true /\
       Forall (fun x => is_stable_release (release x) = false) pre) /\
  (getLatestRelease es = None <-> Forall (fun x => is_stable_release (release x) = false) es).
Proof.
  split; [intros e; exact (js_find_some (fun x => is_stable_release (release x)) es e)
        | exact (js_find_none (fun x => is_stable_release (release x)) es)].
Qed.

(** Composed with [getReleaseData], [getLatestRelease] picks a stable
    release of the input whose [published_at] is no smaller, as a
    string, than that of any other stable release. *)
Theorem latest_release_is_newest_stable (tl : string -> string) (ti : string -> option string)
    (rs : list Release) (es : list ReleaseEntry) (e : ReleaseEntry) :
  getReleaseData tl ti rs = Ok es -> getLatestRelease es = Some e ->
  In (release e) rs /\ is_stable_release (release e) = true /\
  forall r, In r rs -> is_stable_release r = true ->
    String.le (published_at r) (published_at (release e)).
Proof.
  intros Hd Hl. destruct (getReleaseData_ok tl ti rs es Hd) as [Hm _].
  apply (js_find_some (fun x => is_stable_release (release x))) in Hl
    as (pre & post & -> & Hs & Hpre).
  pose proof (orderBy_desc_sorted published_at rs) as Hsort. rewrite <- Hm in Hsort.
  apply Sorted_StronglySorted in Hsort; [|apply desc_by_trans].
  rewrite map_app in Hsort, Hm. cbn [map] in Hsort, Hm.
  pose proof (StronglySorted_mid _ _ _ _ Hsort) as Hpost.
  assert (Hp : (map release pre ++ release e :: map release post)%list ≡ₚ rs)
    by (rewrite Hm; apply orderBy_desc_perm).
  split; [|split; [exact Hs|]].
  - eapply Permutation_in; [exact Hp|]. apply in_or_app. right. left. reflexivity.
  - intros r Hr Hst. apply (Permutation_in _ (Permutation_sym Hp)), in_app_or in Hr.
    destruct Hr as [Hr | [<- | Hr]].
    + apply in_map_iff in Hr as (x & <- & Hx).
      rewrite (proj1 (List.Forall_forall _ _) Hpre x Hx) in Hst. discriminate.
    + reflexivity.
    + exact (proj1 (List.Forall_forall _ _) Hpost r Hr).
Qed.

(** [getMajorReleases] partitions the releases: the group keys are
    distinct, no group is empty, every member of a group has that
    group's "v<major>.<minor>" key, and the groups together hold each
    release exactly once. *)
Theorem getMajorReleases_partition (es : list ReleaseEntry) :
  let g := getMajorReleases es in
  NoDup (map fst g) /\
  Forall (fun p => snd p <> [] /\ Forall (fun e => major_key e = fst p) (snd p)) g /\
  List.concat (map snd g) ≡ₚ es.
Proof.
  intros g. unfold g, getMajorReleases, groupBy.
  assert (H0 : group_ok major_key []) by (split; constructor).
  pose proof (groupBy_fold major_key (orderBy_desc (fun e => major (version e)) es) [] H0)
    as H. cbv zeta in H. destruct H as ([Hn Hf] & Hp & _).
  split; [exact Hn | split; [exact Hf|]].
  rewrite Hp. cbn [map List.concat app]. apply orderBy_desc_perm.
Qed.

(** The groups come in order of non-increasing major version, compared
    as strings (the first release of each group is no greater than the
    first release of any group before it), so "v9.x" groups precede
    "v10.x" groups. *)
Theorem getMajorReleases_heads_sorted (es : list ReleaseEntry) :
  Sorted (desc_by (fun e => major (version e))) (group_heads (getMajorReleases es)).
Proof.
  unfold getMajorReleases, groupBy.
  assert (H0 : group_ok major_key []) by (split; constructor).
  pose proof (groupBy_fold major_key (orderBy_desc (fun e => major (version e)) es) [] H0)
    as H. cbv zeta in H. destruct H as (_ & _ & Hs).
  apply StronglySorted_Sorted. eapply StronglySorted_sublist; [exact Hs|].
  apply Sorted_StronglySorted; [apply desc_by_trans | apply orderBy_desc_sorted].
Qed.

(** ** Further properties of the handlers and the stored timestamp *)

(** The lastShown value the first load writes ([now.toString()]) is read
    back by a later load's [parseInt] as exactly [now], for every integer
    time, negative ones included. *)
Theorem stamp_reads_back (now : Z) : parseInt (Z_to_dec now) = JNum (inject_Z now).
Proof. apply parseInt_Z_to_dec. Qed.



(** ** Witnesses of the further properties *)

Lemma reload_shows_within_interval_witness :
  exists w0,
    mount_effect "x" (inject_Z 7) (fresh st_rw 0) = Ok (tt, w0) /\
    mount_effect "x" (inject_Z 7) (fresh (store w0) day)
    = if day - 0 <? 7 * day
      then Ok (tt, set_pending [(day + 2000, ShowPopup)] (fresh (store w0) day))
      else Ok (tt, fresh (store w0) day).
Proof. apply (reload_shows_within_interval "x" 7 st_rw 0 day); reflexivity. Defined.

Lemma dismiss_persists_across_loads_witness :
  exists w1, handleDismiss "x" (fresh st_rw 0) = Ok (tt, w1) /\
    forall (sd : Q) (now : Z) (n : nat), renders_after "x" sd (store w1) now n = false.
Proof. apply (dismiss_persists_across_loads "x" (fresh st_rw 0)); reflexivity. Defined.

Lemma mount_storage_frame_witness :
  exists w', mount_effect "x" 7 (fresh st_rw 0) = Ok (tt, w') /\
  (forall k, k <> lastShownKey "x" -> items (store w') !! k = items st_rw !! k) /\
  readable (store w') = readable st_rw /\ writable (store w') = writable st_rw /\
  (truthy (items st_rw !! lastShownKey "x") = true -> store w' = st_rw) /\
  render w' = None.
Proof.
  destruct (mount_effect "x" 7 (fresh st_rw 0)) as [[[] w'] | err] eqn:H;
    [| vm_compute in H; discriminate].
  exists w'. split; [reflexivity|].
  exact (mount_storage_frame "x" 7 st_rw 0 w' H).
Defined.

Lemma show_two_phases_witness :
  exists w1 w2,
    load "x" 7 st_rw 0 1 = Ok w1 /\ clock w1 = 0 + 2000 /\ render w1 = Some false /\
    load "x" 7 st_rw 0 2 = Ok w2 /\ clock w2 = 0 + 2100 /\ render w2 = Some true.
Proof. apply (show_two_phases "x" 7 st_rw 0); reflexivity. Defined.

Lemma handlers_hide_after_400_witness :
  let w := mkWorld st_rw 0 [] true false true [] in
  (forall h : M unit, h = handleClose \/ h = handleNavigate "/docs" \/ h = handleDismiss "x" ->
   exists w1 w2, h w = Ok (tt, w1) /\ render w1 = Some false /\
     run_timers 1 w1 = Ok w2 /\ clock w2 = clock w + 400 /\ render w2 = None /\
     store w2 = store w1) /\
  (exists w1, handleClose w = Ok (tt, w1) /\ store w1 = store w) /\
  (exists w1, handleNavigate "/docs" w = Ok (tt, w1) /\ store w1 = store w).
Proof.
  intros w. apply (handlers_hide_after_400 "x" "/docs" w); reflexivity.
Defined.


Lemma getReleaseData_sorted_permutation_witness :
  getReleaseData (fun s => s) sample_iso sample_releases = Ok sample_entries /\
  map release sample_entries ≡ₚ sample_releases /\
  Sorted (desc_by published_at) (map release sample_entries) /\
  Forall (fun e => match_version (tag_name (release e)) = Some (version e) /\
                   sample_iso (published_at (release e)) = Some (published_at_date e) /\
                   published_at_string e = published_at (release e)) sample_entries.
Proof.
  assert (H : getReleaseData (fun s => s) sample_iso sample_releases = Ok sample_entries)
    by (vm_compute; reflexivity).
  split; [exact H|].
  exact (getReleaseData_sorted_permutation (fun s => s) sample_iso sample_releases
           sample_entries H).
Defined.

Lemma version_tag_groups_witness :
  match_version ("v" ++ "1" ++ "." ++ "2" ++ "." ++ "3" ++ "-rc1") = Some (mkVersion "1" "2" "3").
Proof.
  apply (version_tag_groups "v" "1" "2" "3" "-rc1");
    [right; reflexivity | discriminate | discriminate | discriminate
    | reflexivity | reflexivity | reflexivity | reflexivity].
Defined.

Lemma nonnumeric_tag_throws_witness :
  match_version "release-1.0.0" = None /\
  exists err, getReleaseData (fun s => s) sample_iso
                (sample_release "release-1.0.0" "2024-01-01T00:00:00Z" false :: sample_releases)
              = Throw err.
Proof.
  apply (nonnumeric_tag_throws (fun s => s) sample_iso
           (sample_release "release-1.0.0" "2024-01-01T00:00:00Z" false :: sample_releases)
           (sample_release "release-1.0.0" "2024-01-01T00:00:00Z" false));
    [left; reflexivity | reflexivity].
Defined.

Lemma latest_release_is_newest_stable_witness :
  exists e,
    getReleaseData (fun s => s) sample_iso sample_releases = Ok sample_entries /\
    getLatestRelease sample_entries = Some e /\
    In (release e) sample_releases /\ is_stable_release (release e) = true /\
    forall r, In r sample_releases -> is_stable_release r = true ->
      String.le (published_at r) (published_at (release e)).
Proof.
  assert (H1 : getReleaseData (fun s => s) sample_iso sample_releases = Ok sample_entries)
    by (vm_compute; reflexivity).
  destruct (getLatestRelease sample_entries) as [e|] eqn:H2; [| vm_compute in H2; discriminate].
  exists e. split; [exact H1|]. split; [reflexivity|].
  exact (latest_release_is_newest_stable (fun s => s) sample_iso sample_releases
           sample_entries e H1 H2).
Defined.

